(** * The Fibonacci sequence generator of [workspace/fibonacci.py]

    The Python function

<<
    def fibonacci(n):
        fib_list = []
        a, b = 0, 1
        while len(fib_list) < n:
            fib_list.append(a)
            a, b = b, a + b
        return fib_list
>>

    is embedded below.  Python integers are unbounded, so [n], [a] and [b]
    are in [Z]; the list is a [list Z] and [len] is [Z.of_nat (length _)].
    The three local variables form the loop state. *)

From Equations Require Import Equations.
From stdpp Require Import base list strings pretty gmap.
From Stdlib Require Import ZArith Lia.

Local Open Scope Z_scope.

(** ** The loop state and the loop *)

Record state : Type := State { fib_list : list Z; a : Z; b : Z }.

(** [fib_list = []; a, b = 0, 1] *)
Definition init : state := {| fib_list := []; a := 0; b := 1 |}.

(** [len(fib_list)] *)
Definition len (st : state) : Z := Z.of_nat (length (fib_list st)).

(** The loop test [len(fib_list) < n]; it is decidable, and the loop
    branches on its decision. *)
Definition guard (n : Z) (st : state) : Prop := len st < n.

#[global] Instance guard_dec n st : Decision (guard n st).
Proof. unfold guard. apply _. Defined.

(** The loop body: [fib_list.append(a)] and then the simultaneous
    assignment [a, b = b, a + b], whose right-hand side is evaluated with
    the old values of [a] and [b]. *)
Definition body (st : state) : state :=
  {| fib_list := fib_list st ++ [a st]; a := b st; b := a st + b st |}.

(** The quantity that decreases at every iteration: [n - len(fib_list)],
    cut off at zero. *)
Definition measure (n : Z) (st : state) : nat := Z.to_nat (n - len st).

(** [while len(fib_list) < n: body], as a total function on states; the
    recursion is justified by [measure]. *)
Equations while_loop (n : Z) (st : state) : state by wf (measure n st) lt :=
  while_loop n st with decide (guard n st) := {
    | left Hg => while_loop n (body st)
    | right _ => st }.
Next Obligation.
  intros n st Hg _. unfold measure, guard, len, body in *; simpl.
  rewrite length_app; simpl. lia.
Qed.

(** The whole function: initialise, run the loop, [return fib_list]. *)
Definition fibonacci (n : Z) : list Z := fib_list (while_loop n init).

(** ** The loop as a big-step execution relation

    [loop_exec n k st st'] holds when the [while] loop, entered in state
    [st], leaves in state [st'] after running its body exactly [k] times.
    Nothing about termination is built in: an execution exists only if the
    test eventually fails. *)
Inductive loop_exec (n : Z) : nat -> state -> state -> Prop :=
| loop_exit st :
    ~ guard n st -> loop_exec n 0 st st
| loop_iter k st st' :
    guard n st -> loop_exec n k (body st) st' -> loop_exec n (S k) st st'.

(** A call [fibonacci(n)] returns the list [l]. *)
Definition fibonacci_returns (n : Z) (l : list Z) : Prop :=
  exists k st', loop_exec n k init st' /\ fib_list st' = l.

(** ** The reference Fibonacci numbers

    The convention of the specification: F(0)=0, F(1)=1 and
    F(k)=F(k-1)+F(k-2). *)
Fixpoint Fib (k : nat) : Z :=
  match k with
  | O => 0
  | S k1 => match k1 with
            | O => 1
            | S k2 => Fib k1 + Fib k2
            end
  end.

(** The first [k] reference Fibonacci numbers, in order. *)
Definition Fib_prefix (k : nat) : list Z := Fib <$> seq 0 k.

(** The loop state reached from [init] after [k] iterations. *)
Definition state_after (k : nat) : state :=
  {| fib_list := Fib_prefix k; a := Fib k; b := Fib (S k) |}.

(** ** Calls on a heap of list objects

    A Python list is a mutable object reached through a reference, and the
    objects that exist when [fibonacci] is called (among them the lists
    returned by earlier calls, which the caller may have changed) are state
    that a call could in principle read or write.  To speak about that, the
    function is embedded a second time over an explicit heap: [fib_list = []]
    allocates a new list object, [len(fib_list)] reads it,
    [fib_list.append(a)] updates it in place, and [return fib_list] returns
    the reference.  A read through a reference with no object behind it is
    an error ([None]). *)

Abbreviation loc := positive.
Abbreviation heap := (gmap positive (list Z)).

(** The local variables of a call: [fib_list] holds a reference. *)
Record frame : Type := Frame { fr_fib_list : loc; fr_a : Z; fr_b : Z }.

(** [fib_list = []]: a list object that did not exist before. *)
Definition new_list (h : heap) : loc * heap :=
  let l := fresh (dom h) in (l, <[l := []]> h).

Definition inspect {A : Type} (x : A) : {y : A | x = y} := exist _ x eq_refl.

(** The quantity that decreases at every iteration, read from the heap. *)
Definition heap_measure (n : Z) (fr : frame) (h : heap) : nat :=
  match h !! fr_fib_list fr with
  | Some xs => Z.to_nat (n - Z.of_nat (length xs))
  | None => 0
  end.

(** The loop over the heap: the test reads the object behind [fib_list],
    the body replaces it by the list with [a] appended and updates [a] and
    [b]; the other objects are passed along. *)
Equations heap_loop (n : Z) (fr : frame) (h : heap) : option (frame * heap)
  by wf (heap_measure n fr h) lt :=
  heap_loop n fr h with inspect (h !! fr_fib_list fr) := {
    | exist _ None _ => None
    | exist _ (Some xs) Hxs with decide (Z.of_nat (length xs) < n) := {
      | left Hg =>
          heap_loop n
            {| fr_fib_list := fr_fib_list fr;
               fr_a := fr_b fr; fr_b := fr_a fr + fr_b fr |}
            (<[fr_fib_list fr := xs ++ [fr_a fr]]> h)
      | right _ => Some (fr, h) } }.
Next Obligation.
  intros n fr h xs Hg Hxs _. simpl in Hxs. unfold heap_measure; simpl.
  rewrite lookup_insert_eq, Hxs, length_app; simpl. lia.
Qed.

(** A call [fibonacci(n)] in the heap [h]: the reference returned and the
    heap left behind. *)
Definition fibonacci_call (n : Z) (h : heap) : option (loc * heap) :=
  let '(l, h0) := new_list h in
  match heap_loop n {| fr_fib_list := l; fr_a := 0; fr_b := 1 |} h0 with
  | Some (fr, h') => Some (fr_fib_list fr, h')
  | None => None
  end.

(** ** The script part of the module

<<
    if __name__ == "__main__":
        num_fibs = 10
        fib_numbers = fibonacci(num_fibs)
        print(f"The first {num_fibs} Fibonacci numbers are: {fib_numbers}")
>>

    Standard output is modelled as the list of lines written, one per call
    of [print]. *)

(** [str(z)] for an integer: decimal digits, with a leading minus sign for
    a negative number. *)
Definition str_int (z : Z) : string := pretty z.

(** [str(l)] for a list of integers: the elements' decimal forms separated
    by a comma and a space, in square brackets. *)
Definition str_list (l : list Z) : string :=
  "[" +:+ String.concat ", " (str_int <$> l) +:+ "]".

(** The f-string, as a function of the two variables it interpolates. *)
Definition message (num_fibs : Z) (fib_numbers : list Z) : string :=
  "The first " +:+ str_int num_fibs +:+ " Fibonacci numbers are: "
    +:+ str_list fib_numbers.

(** Executing the module under the name [name]: the [def] prints nothing,
    and the guarded block runs only when the module is the main program. *)
Definition module_exec (name : string) : list string :=
  if decide (name = "__main__") then
    let num_fibs := 10 in
    let fib_numbers := fibonacci num_fibs in
    [message num_fibs fib_numbers]
  else [].

(** The sum of a list of integers, used to state an invariant of the loop. *)
Definition sum_Z (l : list Z) : Z := foldr Z.add 0 l.

(** * Properties *)

(** ** The loop body *)

Lemma len_body st : len (body st) = len st + 1.
Proof. unfold len, body; simpl. rewrite length_app; simpl. lia. Qed.

Lemma measure_body n st :
  guard n st -> (measure n (body st) < measure n st)%nat.
Proof. unfold guard, measure. intros Hg. rewrite len_body. lia. Qed.

(** ** Unfolding the loop once *)

Lemma while_loop_exit n st : ~ guard n st -> while_loop n st = st.
Proof.
  intros Hg. simp while_loop.
  destruct (decide (guard n st)) as [Hg'|Hg']; [contradiction | reflexivity].
Qed.

Lemma while_loop_iter n st :
  guard n st -> while_loop n st = while_loop n (body st).
Proof.
  intros Hg. rewrite while_loop_equation_1 at 1.
  destruct (decide (guard n st)) as [Hg'|Hg']; [reflexivity | contradiction].
Qed.

(** ** The relation and the function agree *)

Lemma loop_exec_sound n k st st' :
  loop_exec n k st st' -> while_loop n st = st'.
Proof.
  induction 1 as [st Hg | k st st' Hg _ IH].
  - now apply while_loop_exit.
  - now rewrite while_loop_iter.
Qed.

Lemma loop_exec_measure n k st st' :
  loop_exec n k st st' -> k = measure n st.
Proof.
  induction 1 as [st Hg | k st st' Hg _ IH].
  - unfold guard, measure in *. lia.
  - pose proof (measure_body n st Hg). unfold guard, measure in *.
    rewrite len_body in *. lia.
Qed.

Lemma loop_exec_total n st :
  loop_exec n (measure n st) st (while_loop n st).
Proof.
  remember (measure n st) as k eqn:Hk. revert st Hk.
  induction k as [|k IH]; intros st Hk.
  - assert (Hg : ~ guard n st) by (unfold guard, measure in *; lia).
    rewrite while_loop_exit by assumption. now constructor.
  - assert (Hg : guard n st) by (unfold guard, measure in *; lia).
    rewrite while_loop_iter by assumption.
    apply loop_iter; [assumption|]. apply IH.
    unfold measure in *. rewrite len_body. lia.
Qed.

Lemma fibonacci_returns_iff n l : fibonacci_returns n l <-> l = fibonacci n.
Proof.
  unfold fibonacci_returns, fibonacci. split.
  - intros (k & st' & Hex & <-). now rewrite (loop_exec_sound _ _ _ _ Hex).
  - intros ->. exists (measure n init), (while_loop n init).
    split; [apply loop_exec_total | reflexivity].
Qed.

(** ** The loop invariant: after [k] iterations the list holds the first
    [k] reference numbers and [(a, b)] is the next pair *)

Lemma Fib_SS k : Fib (S (S k)) = Fib (S k) + Fib k.
Proof. reflexivity. Qed.

Lemma Fib_prefix_S k : Fib_prefix (S k) = Fib_prefix k ++ [Fib k].
Proof. unfold Fib_prefix. rewrite seq_S, fmap_app. reflexivity. Qed.

Lemma length_Fib_prefix k : length (Fib_prefix k) = k.
Proof. unfold Fib_prefix. now rewrite length_fmap, length_seq. Qed.

Lemma state_after_0 : state_after 0 = init.
Proof. reflexivity. Qed.

Lemma body_state_after k : body (state_after k) = state_after (S k).
Proof.
  unfold body, state_after; cbn [fib_list a b].
  rewrite Fib_prefix_S, (Fib_SS k). f_equal. lia.
Qed.

Lemma len_state_after k : len (state_after k) = Z.of_nat k.
Proof. unfold len, state_after; simpl. now rewrite length_Fib_prefix. Qed.

Lemma while_loop_state_after n d k :
  Z.of_nat (k + d) = Z.max n (Z.of_nat k) ->
  while_loop n (state_after k) = state_after (k + d).
Proof.
  revert k. induction d as [|d IH]; intros k Hkd.
  - rewrite Nat.add_0_r. apply while_loop_exit.
    unfold guard. rewrite len_state_after. lia.
  - rewrite while_loop_iter by (unfold guard; rewrite len_state_after; lia).
    rewrite body_state_after, <- Nat.add_succ_comm. apply IH. lia.
Qed.

(** The closed form of the result. *)
Lemma fibonacci_spec n : fibonacci n = Fib_prefix (Z.to_nat n).
Proof.
  unfold fibonacci. rewrite <- state_after_0.
  rewrite (while_loop_state_after n (Z.to_nat n) 0) by lia.
  reflexivity.
Qed.

Lemma lookup_Fib_prefix k i :
  (i < k)%nat -> Fib_prefix k !! i = Some (Fib i).
Proof.
  intros Hi. unfold Fib_prefix. rewrite list_lookup_fmap.
  rewrite lookup_seq_lt by assumption. reflexivity.
Qed.

Lemma Fib_bounds k : 0 <= Fib k /\ Fib k <= Fib (S k).
Proof.
  induction k as [|k [IH0 IH1]].
  - simpl. lia.
  - rewrite Fib_SS. lia.
Qed.

(** * The claims *)

(** C1: for every integer [n >= 0] and every index [i] with [0 <= i < n],
    the [i]-th element of [fibonacci n] is the [i]-th Fibonacci number
    under the convention F(0)=0, F(1)=1, F(k)=F(k-1)+F(k-2): the pair-update
    loop computes the reference definition. *)
Theorem fibonacci_nth_Fib (n i : Z) :
  0 <= n -> 0 <= i < n ->
  fibonacci n !! Z.to_nat i = Some (Fib (Z.to_nat i)).
Proof.
  intros Hn Hi. rewrite fibonacci_spec. apply lookup_Fib_prefix. lia.
Qed.

Lemma fibonacci_nth_Fib_witness :
  0 <= 10 /\ 0 <= 7 < 10 /\
  fibonacci 10 !! Z.to_nat 7 = Some (Fib (Z.to_nat 7)).
Proof.
  split; [lia|]. split; [lia|]. apply (fibonacci_nth_Fib 10 7); lia.
Defined.

(** C2: for every integer [n <= 0], [fibonacci n] is the empty list, and
    the call returns it normally: the loop test fails at once and no
    statement that could raise is reached. *)
Theorem fibonacci_nonpositive (n : Z) :
  n <= 0 -> fibonacci n = [] /\ fibonacci_returns n [].
Proof.
  intros Hn.
  assert (Hg : ~ guard n init) by (unfold guard, len; simpl; lia).
  split.
  - unfold fibonacci. now rewrite while_loop_exit.
  - exists 0%nat, init. split; [now constructor | reflexivity].
Qed.

Lemma fibonacci_nonpositive_witness :
  -3 <= 0 /\ fibonacci (-3) = [] /\ fibonacci_returns (-3) [].
Proof. split; [lia|]. apply (fibonacci_nonpositive (-3)). lia. Defined.

(** C3: for every integer [n >= 1], the list returned by [fibonacci n] has
    length exactly [n]. *)
Theorem fibonacci_length (n : Z) :
  1 <= n -> Z.of_nat (length (fibonacci n)) = n.
Proof.
  intros Hn. rewrite fibonacci_spec, length_Fib_prefix. lia.
Qed.

Lemma fibonacci_length_witness :
  1 <= 5 /\ Z.of_nat (length (fibonacci 5)) = 5.
Proof. split; [lia|]. apply (fibonacci_length 5). lia. Defined.

(** C4: for every integer [n >= 2] and every valid index [i >= 2] of the
    result, [fibonacci(n)[i] = fibonacci(n)[i-1] + fibonacci(n)[i-2]]. *)
Theorem fibonacci_recurrence (n i : Z) :
  2 <= n -> 2 <= i < Z.of_nat (length (fibonacci n)) ->
  exists x y z,
    fibonacci n !! Z.to_nat i = Some x /\
    fibonacci n !! Z.to_nat (i - 1) = Some y /\
    fibonacci n !! Z.to_nat (i - 2) = Some z /\
    x = y + z.
Proof.
  intros Hn. rewrite fibonacci_spec, length_Fib_prefix. intros Hi.
  exists (Fib (Z.to_nat i)), (Fib (Z.to_nat (i - 1))), (Fib (Z.to_nat (i - 2))).
  repeat split; try (apply lookup_Fib_prefix; lia).
  replace (Z.to_nat i) with (S (S (Z.to_nat (i - 2)))) by lia.
  replace (Z.to_nat (i - 1)) with (S (Z.to_nat (i - 2))) by lia.
  apply Fib_SS.
Qed.

Lemma fibonacci_recurrence_witness :
  2 <= 6 /\ 2 <= 4 < Z.of_nat (length (fibonacci 6)) /\
  exists x y z,
    fibonacci 6 !! Z.to_nat 4 = Some x /\
    fibonacci 6 !! Z.to_nat (4 - 1) = Some y /\
    fibonacci 6 !! Z.to_nat (4 - 2) = Some z /\
    x = y + z.
Proof.
  split; [lia|].
  assert (H : 2 <= 4 < Z.of_nat (length (fibonacci 6))) by (vm_compute; split; congruence).
  split; [exact H|]. apply (fibonacci_recurrence 6 4); [lia | exact H].
Defined.

(** C5: for every integer [n] the call [fibonacci n] terminates and returns
    normally.  The body appends exactly one element, so the measure
    [n - len(fib_list)] strictly decreases across an iteration; the loop,
    started in the initial state, stops after [max n 0] iterations in the
    state the function computes, and the call returns [fibonacci n]. *)
Theorem fibonacci_terminates (n : Z) :
  (forall st, length (fib_list (body st)) = S (length (fib_list st))) /\
  (forall st, guard n st -> (measure n (body st) < measure n st)%nat) /\
  loop_exec n (Z.to_nat n) init (while_loop n init) /\
  fibonacci_returns n (fibonacci n).
Proof.
  split; [|split; [|split]].
  - intros st. unfold body; simpl. rewrite length_app; simpl. lia.
  - apply measure_body.
  - replace (Z.to_nat n) with (measure n init)
      by (unfold measure, len; simpl; f_equal; lia).
    apply loop_exec_total.
  - now apply fibonacci_returns_iff.
Qed.

(** C6: [fibonacci 1 = [0]], [fibonacci 2 = [0; 1]] and
    [fibonacci 10 = [0; 1; 1; 2; 3; 5; 8; 13; 21; 34]]. *)
Theorem fibonacci_examples :
  fibonacci 1 = [0] /\
  fibonacci 2 = [0; 1] /\
  fibonacci 10 = [0; 1; 1; 2; 3; 5; 8; 13; 21; 34].
Proof. repeat split; vm_compute; reflexivity. Qed.

(** The heap loop and the loop on states do the same thing to the object
    behind [fib_list] and to [a] and [b]. *)
Lemma heap_loop_exit n fr h xs :
  h !! fr_fib_list fr = Some xs -> ~ Z.of_nat (length xs) < n ->
  heap_loop n fr h = Some (fr, h).
Proof.
  intros Hxs Hg. rewrite heap_loop_equation_1.
  destruct (inspect (h !! fr_fib_list fr)) as [[ys|] Ho]; [|congruence].
  assert (ys = xs) by congruence. subst ys. simpl.
  destruct (decide (Z.of_nat (length xs) < n)); [contradiction | reflexivity].
Qed.

Lemma heap_loop_iter n fr h xs :
  h !! fr_fib_list fr = Some xs -> Z.of_nat (length xs) < n ->
  heap_loop n fr h =
    heap_loop n (Frame (fr_fib_list fr) (fr_b fr) (fr_a fr + fr_b fr))
      (<[fr_fib_list fr := xs ++ [fr_a fr]]> h).
Proof.
  intros Hxs Hg. rewrite heap_loop_equation_1 at 1.
  destruct (inspect (h !! fr_fib_list fr)) as [[ys|] Ho]; [|congruence].
  assert (ys = xs) by congruence. subst ys. simpl.
  destruct (decide (Z.of_nat (length xs) < n)); [reflexivity | contradiction].
Qed.

Lemma heap_loop_simulates n k st st' :
  loop_exec n k st st' ->
  forall (l : loc) (h : heap),
    h !! l = Some (fib_list st) ->
    heap_loop n (Frame l (a st) (b st)) h =
      Some (Frame l (a st') (b st'), <[l := fib_list st']> h).
Proof.
  induction 1 as [st Hg | k st st' Hg _ IH]; intros l h Hl.
  - rewrite (heap_loop_exit n (Frame l (a st) (b st)) h (fib_list st) Hl Hg).
    rewrite insert_id by exact Hl.
    reflexivity.
  - rewrite (heap_loop_iter n (Frame l (a st) (b st)) h (fib_list st) Hl Hg).
    cbn [fr_fib_list fr_a fr_b].
    rewrite (IH l) by apply lookup_insert_eq.
    now rewrite insert_insert_eq.
Qed.

Lemma fibonacci_call_spec n (h : heap) :
  let r := fresh (dom h) in
  h !! r = None /\ fibonacci_call n h = Some (r, <[r := fibonacci n]> h).
Proof.
  intros r. assert (Hr : h !! r = None)
    by (apply not_elem_of_dom, is_fresh).
  split; [exact Hr|].
  unfold fibonacci_call, new_list. fold r.
  rewrite (heap_loop_simulates n _ init _ (loop_exec_total n init) r)
    by apply lookup_insert_eq.
  cbn [fr_fib_list]. now rewrite insert_insert_eq.
Qed.

(** Two calls in sequence, the caller appending 99 to the first result in
    between: the second result is a different object with the same
    content the first one had, and the first object keeps the caller's
    change. *)
Example fibonacci_call_twice :
  match fibonacci_call 3 ∅ with
  | Some (r1, h1) =>
      match fibonacci_call 3 (<[r1 := [0; 1; 1; 99]]> h1) with
      | Some (r2, h2) =>
          r1 <> r2 /\ h1 !! r1 = Some [0; 1; 1] /\
          h2 !! r2 = Some [0; 1; 1] /\ h2 !! r1 = Some [0; 1; 1; 99]
      | None => False
      end
  | None => False
  end.
Proof. vm_compute. repeat split; congruence. Qed.

(** C7: [fibonacci] is deterministic and depends on no hidden state.
    Whatever objects exist when it is called, a call returns normally a
    reference to a list object that did not exist before, whose content is
    [fibonacci n], and leaves every other object as it was.  So two calls
    with the same [n], made in any two heaps (for instance the second one
    after the first, with the first result changed in between), return
    lists with identical contents, and neither result is an object that
    existed before its call. *)
Theorem fibonacci_call_deterministic (n : Z) (h1 h2 : heap) :
  exists r1 h1' r2 h2',
    fibonacci_call n h1 = Some (r1, h1') /\
    fibonacci_call n h2 = Some (r2, h2') /\
    h1' !! r1 = h2' !! r2 /\
    h1' !! r1 = Some (fibonacci n) /\
    h1 !! r1 = None /\ h2 !! r2 = None /\
    (forall l, l <> r1 -> h1' !! l = h1 !! l) /\
    (forall l, l <> r2 -> h2' !! l = h2 !! l).
Proof.
  destruct (fibonacci_call_spec n h1) as [Hf1 Hc1].
  destruct (fibonacci_call_spec n h2) as [Hf2 Hc2].
  eexists _, _, _, _.
  split; [exact Hc1|]. split; [exact Hc2|].
  rewrite !lookup_insert_eq.
  repeat split; try assumption.
  - intros l Hl. now apply lookup_insert_ne.
  - intros l Hl. now apply lookup_insert_ne.
Qed.

(** C8: prefix monotonicity: for all integers [m] and [n] with
    [0 <= m <= n], [fibonacci m] is a prefix of [fibonacci n]; the first
    [m] elements of [fibonacci n] are [fibonacci m]. *)
Theorem fibonacci_prefix (m n : Z) :
  0 <= m <= n ->
  fibonacci m `prefix_of` fibonacci n /\
  take (Z.to_nat m) (fibonacci n) = fibonacci m.
Proof.
  intros Hmn.
  assert (Ht : take (Z.to_nat m) (fibonacci n) = fibonacci m).
  { rewrite !fibonacci_spec. unfold Fib_prefix.
    rewrite <- fmap_take, take_seq. f_equal. f_equal. lia. }
  split; [|exact Ht].
  rewrite <- Ht. apply prefix_take.
Qed.

Lemma fibonacci_prefix_witness :
  0 <= 4 <= 9 /\
  fibonacci 4 `prefix_of` fibonacci 9 /\
  take (Z.to_nat 4) (fibonacci 9) = fibonacci 4.
Proof. split; [lia|]. apply (fibonacci_prefix 4 9). lia. Defined.

(** C9: for every integer [n], every element of [fibonacci n] is
    non-negative, and the list is non-decreasing:
    [fibonacci(n)[i] <= fibonacci(n)[i+1]] for every [i] with
    [0 <= i < n - 1]. *)
Theorem fibonacci_nonneg_nondecreasing (n : Z) :
  Forall (fun x => 0 <= x) (fibonacci n) /\
  forall i, 0 <= i < n - 1 ->
    exists x y,
      fibonacci n !! Z.to_nat i = Some x /\
      fibonacci n !! Z.to_nat (i + 1) = Some y /\
      x <= y.
Proof.
  rewrite fibonacci_spec. split.
  - unfold Fib_prefix. apply Forall_fmap, Forall_forall.
    intros k _. apply Fib_bounds.
  - intros i Hi. exists (Fib (Z.to_nat i)), (Fib (Z.to_nat (i + 1))).
    repeat split; try (apply lookup_Fib_prefix; lia).
    replace (Z.to_nat (i + 1)) with (S (Z.to_nat i)) by lia.
    apply Fib_bounds.
Qed.

Lemma fibonacci_nonneg_nondecreasing_witness :
  Forall (fun x => 0 <= x) (fibonacci 8) /\
  0 <= 5 < 8 - 1 /\
  exists x y,
    fibonacci 8 !! Z.to_nat 5 = Some x /\
    fibonacci 8 !! Z.to_nat (5 + 1) = Some y /\
    x <= y.
Proof.
  destruct (fibonacci_nonneg_nondecreasing 8) as [Hall Hmono].
  split; [exact Hall|]. split; [lia|]. apply (Hmono 5). lia.
Defined.

(** * Further properties of the loop and of the script *)

(** ** Helper lemmas *)

Lemma loop_exec_appends n k st st' :
  loop_exec n k st st' ->
  exists suffix, fib_list st' = fib_list st ++ suffix /\ length suffix = k.
Proof.
  induction 1 as [st Hg | k st st' Hg _ (suffix & Heq & Hlen)].
  - exists []. split; [now rewrite app_nil_r | reflexivity].
  - exists (a st :: suffix). split; [|simpl; now rewrite Hlen].
    rewrite Heq. unfold body; simpl. now rewrite <- app_assoc.
Qed.

Lemma while_loop_init n : while_loop n init = state_after (Z.to_nat n).
Proof.
  rewrite <- state_after_0.
  now rewrite (while_loop_state_after n (Z.to_nat n) 0) by lia.
Qed.

Lemma Fib_pos k : (1 <= k)%nat -> 0 < Fib k.
Proof.
  intros Hk. destruct k as [|k]; [lia|]. clear Hk.
  induction k as [|k IH]; [reflexivity|].
  rewrite Fib_SS. pose proof (Fib_bounds k). lia.
Qed.

Lemma Fib_mono j k : (j <= k)%nat -> Fib j <= Fib k.
Proof.
  induction 1 as [|k _ IH]; [lia|]. pose proof (Fib_bounds k). lia.
Qed.

Lemma Fib_lt_pow2 k : Fib k < 2 ^ Z.of_nat k /\ Fib (S k) < 2 ^ Z.of_nat (S k).
Proof.
  induction k as [|k [IH0 IH1]].
  - split; reflexivity.
  - split; [exact IH1|]. rewrite Fib_SS.
    replace (Z.of_nat (S (S k))) with (Z.of_nat k + 2) by lia.
    replace (Z.of_nat (S k)) with (Z.of_nat k + 1) in IH1 by lia.
    rewrite Z.pow_add_r in * by lia.
    change (2 ^ 2) with 4. change (2 ^ 1) with 2 in IH1.
    pose proof (Z.pow_pos_nonneg 2 (Z.of_nat k)). lia.
Qed.

Lemma sum_Z_app l1 l2 : sum_Z (l1 ++ l2) = sum_Z l1 + sum_Z l2.
Proof.
  unfold sum_Z. induction l1 as [|x l1 IH]; simpl; [reflexivity|].
  rewrite IH. lia.
Qed.

Lemma sum_Z_Fib_prefix k : sum_Z (Fib_prefix k) = Fib (S k) - 1.
Proof.
  induction k as [|k IH]; [reflexivity|].
  rewrite Fib_prefix_S, sum_Z_app, IH, (Fib_SS k).
  unfold sum_Z; simpl. lia.
Qed.

(** ** The loop, entered in an arbitrary state *)

(** X1: the loop only appends.  Entered in any state with any bound [n],
    it leaves with the list it was given followed by exactly
    [max (n - len) 0] new elements; in particular the elements already
    present are never changed or removed, and the final length is
    [max n len]. *)
Theorem while_loop_appends (n : Z) (st : state) :
  exists suffix,
    fib_list (while_loop n st) = fib_list st ++ suffix /\
    Z.of_nat (length suffix) = Z.max (n - len st) 0 /\
    len (while_loop n st) = Z.max n (len st).
Proof.
  destruct (loop_exec_appends _ _ _ _ (loop_exec_total n st))
    as (suffix & Heq & Hlen).
  exists suffix. split; [exact Heq|].
  assert (Hs : Z.of_nat (length suffix) = Z.max (n - len st) 0)
    by (rewrite Hlen; unfold measure; lia).
  split; [exact Hs|].
  unfold len at 1. rewrite Heq, length_app. unfold len in *. lia.
Qed.

(** X2: resuming.  Running the loop up to [m] and then, from the state it
    left, up to [n >= m] ends in the same state as running it up to [n]
    at once. *)
Theorem while_loop_resume (m n : Z) (st : state) :
  m <= n -> while_loop n (while_loop m st) = while_loop n st.
Proof.
  intros Hmn.
  pose proof (loop_exec_total m st) as Hex.
  induction Hex as [st Hg | k st st' Hg _ IH]; [reflexivity|].
  rewrite IH. symmetry. apply while_loop_iter. unfold guard in *. lia.
Qed.

Lemma while_loop_resume_witness :
  2 <= 5 /\
  while_loop 5 (while_loop 2 (State [7] 3 4)) = while_loop 5 (State [7] 3 4).
Proof. split; [lia|]. apply (while_loop_resume 2 5). lia. Defined.

(** X3: the variables at loop exit.  When [fibonacci n] leaves its loop,
    [a] is the Fibonacci number of index [max n 0], the one that the next
    iteration would have appended, and [b] is the one after it. *)
Theorem fibonacci_exit_pair (n : Z) :
  a (while_loop n init) = Fib (Z.to_nat n) /\
  b (while_loop n init) = Fib (S (Z.to_nat n)).
Proof. rewrite while_loop_init. split; reflexivity. Qed.

(** ** The returned list *)

(** X4: asking for one more element appends one element: for [n >= 0],
    [fibonacci (n + 1)] is [fibonacci n] followed by the Fibonacci number of
    index [n]. *)
Theorem fibonacci_succ (n : Z) :
  0 <= n -> fibonacci (n + 1) = fibonacci n ++ [Fib (Z.to_nat n)].
Proof.
  intros Hn. rewrite !fibonacci_spec.
  replace (Z.to_nat (n + 1)) with (S (Z.to_nat n)) by lia.
  apply Fib_prefix_S.
Qed.

Lemma fibonacci_succ_witness :
  0 <= 6 /\ fibonacci (6 + 1) = fibonacci 6 ++ [Fib (Z.to_nat 6)].
Proof. split; [lia|]. apply (fibonacci_succ 6). lia. Defined.

(** X5: apart from the two ones at indices 1 and 2, adjacent elements are
    strictly increasing: [fibonacci(n)[i] < fibonacci(n)[i+1]] for every
    [i] with [0 <= i < n - 1] other than [i = 1]. *)
Theorem fibonacci_strictly_increasing (n i : Z) :
  0 <= i < n - 1 -> i <> 1 ->
  exists x y,
    fibonacci n !! Z.to_nat i = Some x /\
    fibonacci n !! Z.to_nat (i + 1) = Some y /\
    x < y.
Proof.
  intros Hi Hi1. rewrite fibonacci_spec.
  exists (Fib (Z.to_nat i)), (Fib (Z.to_nat (i + 1))).
  repeat split; try (apply lookup_Fib_prefix; lia).
  destruct (decide (i = 0)) as [-> | Hi0]; [reflexivity|].
  replace (Z.to_nat (i + 1)) with (S (S (Z.to_nat (i - 1)))) by lia.
  replace (Z.to_nat i) with (S (Z.to_nat (i - 1))) by lia.
  rewrite Fib_SS. pose proof (Fib_pos (Z.to_nat (i - 1))). lia.
Qed.

Lemma fibonacci_strictly_increasing_witness :
  0 <= 2 < 4 - 1 /\ 2 <> 1 /\
  exists x y,
    fibonacci 4 !! Z.to_nat 2 = Some x /\
    fibonacci 4 !! Z.to_nat (2 + 1) = Some y /\
    x < y.
Proof.
  split; [lia|]. split; [lia|].
  apply (fibonacci_strictly_increasing 4 2); lia.
Defined.

(** X6: the sum of the returned list is one less than the value [b] holds
    when the loop exits, that is, one less than the Fibonacci number of
    index [max n 0 + 1]. *)
Theorem fibonacci_sum (n : Z) :
  sum_Z (fibonacci n) = b (while_loop n init) - 1 /\
  sum_Z (fibonacci n) = Fib (S (Z.to_nat n)) - 1.
Proof.
  rewrite fibonacci_spec, while_loop_init, sum_Z_Fib_prefix.
  split; reflexivity.
Qed.

(** X7: the element at index [i] of the result is below [2 ^ i]. *)
Theorem fibonacci_below_pow2 (n i : Z) :
  0 <= i < n ->
  exists x, fibonacci n !! Z.to_nat i = Some x /\ 0 <= x < 2 ^ i.
Proof.
  intros Hi. rewrite fibonacci_spec. exists (Fib (Z.to_nat i)).
  split; [apply lookup_Fib_prefix; lia|].
  pose proof (Fib_bounds (Z.to_nat i)) as [H0 _].
  pose proof (Fib_lt_pow2 (Z.to_nat i)) as [H1 _].
  rewrite Z2Nat.id in H1 by lia. lia.
Qed.

Lemma fibonacci_below_pow2_witness :
  0 <= 9 < 10 /\
  exists x, fibonacci 10 !! Z.to_nat 9 = Some x /\ 0 <= x < 2 ^ 9.
Proof. split; [lia|]. apply (fibonacci_below_pow2 10 9). lia. Defined.

(** X8: the results that fit a signed 64-bit integer.  For [n <= 93] every
    element of [fibonacci n] is below [2 ^ 63]; [fibonacci 94] is the first
    result with an element that is not. *)
Theorem fibonacci_int64 (n : Z) :
  (n <= 93 -> Forall (fun x => 0 <= x < 2 ^ 63) (fibonacci n)) /\
  (94 <= n -> Exists (fun x => 2 ^ 63 <= x) (fibonacci n)).
Proof.
  assert (H92 : Fib 92 < 2 ^ 63).
  { assert (H : fibonacci 93 !! 92%nat = Some (Fib 92))
      by (rewrite fibonacci_spec; apply lookup_Fib_prefix; lia).
    assert (E : fibonacci 93 !! 92%nat = Some 7540113804746346429)
      by (vm_compute; reflexivity).
    assert (E92 : Fib 92 = 7540113804746346429) by congruence.
    rewrite E92. reflexivity. }
  assert (H93 : 2 ^ 63 <= Fib 93).
  { assert (H : fibonacci 94 !! 93%nat = Some (Fib 93))
      by (rewrite fibonacci_spec; apply lookup_Fib_prefix; lia).
    assert (E : fibonacci 94 !! 93%nat = Some 12200160415121876738)
      by (vm_compute; reflexivity).
    assert (E93 : Fib 93 = 12200160415121876738) by congruence.
    rewrite E93. discriminate. }
  rewrite fibonacci_spec. unfold Fib_prefix. split; intros Hn.
  - apply Forall_fmap, Forall_forall. intros k Hk%elem_of_seq. simpl.
    pose proof (Fib_bounds k). pose proof (Fib_mono k 92). lia.
  - apply Exists_exists. exists (Fib 93). split; [|exact H93].
    apply list_elem_of_fmap. exists 93%nat. split; [reflexivity|].
    apply elem_of_seq. lia.
Qed.

Lemma fibonacci_int64_witness :
  93 <= 93 /\ Forall (fun x => 0 <= x < 2 ^ 63) (fibonacci 93) /\
  94 <= 94 /\ Exists (fun x => 2 ^ 63 <= x) (fibonacci 94).
Proof.
  split; [lia|]. split; [apply (fibonacci_int64 93); lia|].
  split; [lia|]. apply (fibonacci_int64 94); lia.
Defined.

(** ** The script *)

(** X9: run as the main program, the module writes exactly one line, the
    announcement of the first ten numbers; executed under any other name
    (imported), it writes nothing. *)
Theorem module_exec_output (name : string) :
  (name = "__main__" ->
   module_exec name =
     ["The first 10 Fibonacci numbers are: [0, 1, 1, 2, 3, 5, 8, 13, 21, 34]"]) /\
  (name <> "__main__" -> module_exec name = []).
Proof.
  unfold module_exec. split; intros Hname.
  - subst name. vm_compute. reflexivity.
  - destruct (decide (name = "__main__")); [contradiction | reflexivity].
Qed.

Lemma module_exec_output_witness :
  module_exec "__main__" =
    ["The first 10 Fibonacci numbers are: [0, 1, 1, 2, 3, 5, 8, 13, 21, 34]"] /\
  "fibonacci" <> "__main__" /\ module_exec "fibonacci" = [].
Proof.
  split; [apply (module_exec_output "__main__"); reflexivity|].
  assert (H : "fibonacci" <> "__main__") by discriminate.
  split; [exact H|]. apply (module_exec_output "fibonacci"); exact H.
Defined.
